(** * cpp-lazy: lazy sequence views (Map, Take, Concatenate)

    A shallow embedding of [include/Lz/Take.hpp], [include/Lz/Concatenate.hpp]
    and [include/Lz/detail/MapIterator.hpp], and the properties of the views
    built from them.

    Source sequences are ranges of positions in a store of elements; a source
    cursor is a position (a pointer, or the index an iterator stands at).
    Dereferencing a source cursor yields a reference, which is a location of
    the store; reading a reference loads the element kept there. *)

From Stdlib Require Import List Arith Bool Lia String ZArith.
Import ListNotations.

Set Implicit Arguments.

(** ** Iterator traits

    The compile-time side of an iterator type: the names of its member types
    and its category tag. *)

Inductive iterator_tag : Type :=
| forward_iterator_tag
| bidirectional_iterator_tag
| random_access_iterator_tag.

Definition tag_rank (t : iterator_tag) : nat :=
  match t with
  | forward_iterator_tag => 0
  | bidirectional_iterator_tag => 1
  | random_access_iterator_tag => 2
  end.

Definition tag_leb (a b : iterator_tag) : bool := tag_rank a <=? tag_rank b.

Definition tag_min (a b : iterator_tag) : iterator_tag :=
  if tag_leb a b then a else b.



Record iterator_traits : Type := {
  value_type : string;
  difference_type : string;
  pointer : string;
  reference : string;
  iterator_category : iterator_tag
}.

(** [std::is_same] on type names. *)
Definition is_same (a b : string) : bool := String.eqb a b.

(** ** Store, references and the dereference log *)

(** The store holds one element per location. A read is total, as a pointer
    read is: the locations outside a range hold whatever lies around it (for
    [take(array, 3)] the location at the end of the view is the fourth
    element of the array). *)
Definition Store (T : Type) : Type := nat -> T.

Definition assign {T} (m : Store T) (r : nat) (v : T) : Store T :=
  fun j => if j =? r then v else m j.

(** Computations that read the store and log, in order, every location they
    dereference. *)
Definition Rd (T A : Type) : Type := Store T -> A * list nat.

Definition ret {T A} (a : A) : Rd T A := fun _ => (a, []).

Definition bind {T A B} (c : Rd T A) (k : A -> Rd T B) : Rd T B :=
  fun m => let (a, t1) := c m in
           let (b, t2) := k a m in (b, t1 ++ t2).

Definition load {T} (r : nat) : Rd T T := fun m => (m r, [r]).

Notation "x <- c ;; k" := (bind c (fun x => k))
  (at level 61, c at next level, right associativity).

(** [a && b] of C++: [b] is evaluated only when [a] holds. *)
Definition and_then {T} (a b : Rd T bool) : Rd T bool :=
  x <- a ;; if x then b else ret false.

(** The elements produced and the locations dereferenced by a run. *)
Definition collected {A} (r : A * list nat) : A := fst r.
Definition dereferenced {A} (r : A * list nat) : list nat := snd r.

(** ** The cursor contract *)

Class Cursor (T C : Type) : Type := {
  neq : C -> C -> Rd T bool;  (* operator!= *)
  deref : C -> nat;           (* operator*, a reference *)
  incr : C -> C               (* operator++ *)
}.

(** A view hands out its two cursors ([BasicIteratorView::begin], [end]). *)
Class View (V C : Type) : Type := {
  begin : V -> C;
  end_ : V -> C
}.

(** Modelled from the spec: the sink [collect] ([toVector] of
    [BasicIteratorView.hpp], which is not among the sources). It drains a
    view by repeated increment until the cursor equals the end, with one
    dereference per produced element. [fuel] bounds the number of tests
    against the end; [None] is a loop that has not finished within it. *)
Fixpoint drain {T C} `{Cursor T C} (fuel : nat) (it last : C)
  : Rd T (option (list T)) :=
  match fuel with
  | 0 => ret None
  | S fuel' =>
      b <- neq it last ;;
      if b then
        v <- load (deref it) ;;
        r <- drain fuel' (incr it) last ;;
        ret (option_map (cons v) r)
      else ret (Some [])
  end.

Definition toVector {T V C} `{View V C} `{Cursor T C} (fuel : nat) (v : V)
  : Rd T (option (list T)) :=
  drain fuel (begin v) (end_ v).

(** ** Source sequences *)

(** An iterable: the traits of its iterator type, the position of its first
    element and its number of elements. [std::begin] and [std::end] are its
    two bounds. *)
Record Iterable : Type := {
  iter_traits : iterator_traits;
  base : nat;
  size : nat
}.

Definition std_begin (s : Iterable) : nat := base s.
Definition std_end (s : Iterable) : nat := base s + size s.
Definition std_next (p : nat) (n : nat) : nat := p + n.

#[export] Instance pointer_cursor {T} : Cursor T nat := {
  neq := fun p q => ret (negb (p =? q));
  deref := fun p => p;
  incr := S
}.

#[export] Instance iterable_view : View Iterable nat := {
  begin := std_begin;
  end_ := std_end
}.

(** The elements of a range of the store, first to last. *)
Definition span {T} (m : Store T) (p n : nat) : list T := map m (seq p n).

Definition elements {T} (m : Store T) (s : Iterable) : list T :=
  span m (base s) (size s).

(** ** [Lz/detail/TakeIterator.hpp] *)

Module detail_TakeIterator.
Section Def.
Variable T : Type.

(** Modelled from the spec: the bounded cursor of [TakeIterator.hpp], which
    is not among the sources. It is constructed from the source cursor, the
    source end and the predicate. *)
Record TakeIterator : Type := {
  _iterator : nat;
  _end : nat;
  _function : T -> bool
}.

(** Modelled from the spec: dereference and increment of the bounded cursor
    (absent [TakeIterator::operator*], [operator++]) delegate to the source
    cursor. *)
Definition op_deref (this : TakeIterator) : nat :=
  deref (T := T) (_iterator this).

Definition op_preinc (this : TakeIterator) : TakeIterator :=
  {| _iterator := incr (T := T) (_iterator this);
     _end := _end this;
     _function := _function this |}.

(** Modelled from the spec: the test against the end (absent
    [TakeIterator::operator!=]) is
    [predicate( *source) && source != sourceEnd], on the cursor's own source
    cursor and source end. *)
Definition op_neq (this other : TakeIterator) : Rd T bool :=
  and_then (v <- load (deref (T := T) (_iterator this)) ;;
            ret (_function this v))
           (neq (_iterator this) (_end this)).

(** Modelled from the spec: the member types of the bounded cursor, which
    [TakeIterator.hpp] declares, other than its category are those of the
    cursor it wraps, to which dereference delegates. The category is the one
    [Take.hpp] documents for the cursor of every view it builds (at
    [takewhilerange], [takewhile], [takerange], [take] and [slice]: "Its
    begin() function returns a random access iterator"), whatever the
    iterator it wraps. *)
Definition traits (Iterator : iterator_traits) : iterator_traits :=
  {| value_type := value_type Iterator;
     difference_type := difference_type Iterator;
     pointer := pointer Iterator;
     reference := reference Iterator;
     iterator_category := random_access_iterator_tag |}.

End Def.

#[export] Instance take_cursor {T} : Cursor T (TakeIterator T) := {
  neq := @op_neq T;
  deref := @op_deref T;
  incr := @op_preinc T
}.
End detail_TakeIterator.

(** ** [Lz/Take.hpp] *)

Module lz_Take.
Import detail_TakeIterator.
Section Def.
Variable T : Type.

Record Take : Type := {
  _begin : TakeIterator T;
  _end : TakeIterator T
}.

(** [Take::Take(Iterator begin, Iterator end, Function function)] *)
Definition Take_ctor (begin_ last : nat) (function : T -> bool) : Take :=
  {| _begin := Build_TakeIterator begin_ last function;
     _end := Build_TakeIterator last last function |}.

Definition Take_begin (this : Take) : TakeIterator T := _begin this.

Definition Take_end (this : Take) : TakeIterator T := _end this.

Definition takewhilerange (begin_ last : nat) (predicate : T -> bool) : Take :=
  Take_ctor begin_ last predicate.

(** The branch of [takewhile] outside [_MSC_VER]. *)
Definition takewhile (iterable : Iterable) (predicate : T -> bool) : Take :=
  takewhilerange (std_begin iterable) (std_end iterable) predicate.

(** The branch of [takewhile] under [_MSC_VER], for contiguous containers:
    the cursors become pointers. [&( *p)] is the location [p] refers to; the
    end is taken as one past the address of the last element, unless the
    iterable is empty. *)
Definition takewhile_msvc (iterable : Iterable) (predicate : T -> bool)
  : Take :=
  let begin_ := std_begin iterable in
  let last := std_end iterable in
  if begin_ =? last then
    takewhilerange (deref (T := T) begin_) (deref (T := T) last) predicate
  else
    let last' := Nat.pred last in
    takewhilerange (deref (T := T) begin_) (deref (T := T) last' + 1)
                   predicate.

Definition takerange (begin_ last : nat) : Take :=
  takewhilerange begin_ last (fun _ => true).

(** [amount], [from] and [to] are [size_t]; they are natural numbers here,
    within the range of the iterator's difference type. *)
Definition take (iterable : Iterable) (amount : nat) : Take :=
  let begin_ := std_begin iterable in
  takerange begin_ (std_next begin_ amount).

Definition slice (iterable : Iterable) (from to : nat) : Take :=
  let begin_ := std_begin iterable in
  takerange (std_next begin_ from) (std_next begin_ to).

End Def.

#[export] Instance take_view {T} : View (Take T) (TakeIterator T) := {
  begin := @Take_begin T;
  end_ := @Take_end T
}.
End lz_Take.

(** ** [Lz/detail/ConcatenateIterator.hpp] *)

Module detail_ConcatenateIterator.

(** Modelled from the spec: the fused cursor of [ConcatenateIterator.hpp],
    which is not among the sources. It is constructed from the tuple of
    positions, the tuple of begins and the tuple of ends, as
    [Concatenate::begin] and [Concatenate::end] do. *)
Record ConcatenateIterator : Type := {
  _iterators : list nat;
  _begin : list nat;
  _end : list nat
}.

(** Modelled from the spec: the active slot. The constructor receives the
    three tuples only, so the slot is read off the positions: by the invariant
    of the data model it is the first slot whose cursor is before its end, and
    the last slot at the composite end. *)
Fixpoint active_slot (iterators ends : list nat) : nat :=
  match iterators, ends with
  | i :: rest, e :: ends' =>
      match rest with
      | [] => 0
      | _ :: _ => if i =? e then S (active_slot rest ends') else 0
      end
  | _, _ => 0
  end.

Definition active (this : ConcatenateIterator) : nat :=
  active_slot (_iterators this) (_end this).

Definition current (this : ConcatenateIterator) : nat :=
  nth (active this) (_iterators this) 0.

(** The tuple with the cursor of slot [k] advanced by one. *)
Fixpoint advance (k : nat) (iterators : list nat) : list nat :=
  match iterators, k with
  | [], _ => []
  | i :: rest, 0 => S i :: rest
  | i :: rest, S k' => i :: advance k' rest
  end.

(** Modelled from the spec: dereference is that of the active slot's cursor;
    increment advances the active slot's cursor (when it reaches the end of a
    slot that is not the last, the active slot becomes the next one, whose
    cursor stands at its begin; in the last slot it stays at the end); two
    fused cursors are equal iff their active slots are equal and their active
    cursors are equal. *)
Definition op_deref (this : ConcatenateIterator) : nat := current this.

Definition op_preinc (this : ConcatenateIterator) : ConcatenateIterator :=
  {| _iterators := advance (active this) (_iterators this);
     _begin := _begin this;
     _end := _end this |}.

Definition op_eq (this other : ConcatenateIterator) : bool :=
  (active this =? active other) && (current this =? current other).

Definition op_neq (this other : ConcatenateIterator) : bool :=
  negb (op_eq this other).


#[export] Instance concatenate_cursor {T} : Cursor T ConcatenateIterator := {
  neq := fun a b => ret (op_neq a b);
  deref := op_deref;
  incr := op_preinc
}.
End detail_ConcatenateIterator.

(** ** [Lz/Concatenate.hpp] *)

Module lz_Concatenate.
Import detail_ConcatenateIterator.

(** [detail::IsAllSame<Same, First, More...>] with its specialisation for two
    types. *)
Fixpoint IsAllSame (Same First : string) (More : list string) : bool :=
  match More with
  | [] => is_same Same First
  | Next :: More' => is_same Same First && IsAllSame First Next More'
  end.

(** [IsAllSame<Types...>::value] for a pack; with fewer than two types the
    template has no instance. *)
Definition IsAllSame_value (pack : list string) : option bool :=
  match pack with
  | Same :: First :: More => Some (IsAllSame Same First More)
  | _ => None
  end.

(** The class template over the pack [Iterators...], with its two tuples. *)
Record Concatenate : Type := {
  Iterators : list iterator_traits;
  _begin : list nat;
  _end : list nat
}.

Definition Concatenate_begin (this : Concatenate) : ConcatenateIterator :=
  Build_ConcatenateIterator (_begin this) (_begin this) (_end this).

Definition Concatenate_end (this : Concatenate) : ConcatenateIterator :=
  Build_ConcatenateIterator (_end this) (_begin this) (_end this).

(** A [static_assert]: the instantiation goes on when the condition holds and
    is rejected with the message otherwise. *)
Definition static_assert {A} (cond : option bool) (msg : string)
  (k : string + A) : string + A :=
  match cond with
  | Some true => k
  | _ => inl msg
  end.

Definition concatrange (pack : list iterator_traits) (begin_ last : list nat)
  : string + Concatenate :=
  static_assert (Some (2 <=? List.length pack))
    "amount of iterators/containers cannot be less than or equal to 1"
  (static_assert (IsAllSame_value (map value_type pack))
    "value types of iterators do not match"
  (static_assert (IsAllSame_value (map pointer pack))
    "pointer types of iterators do not match"
  (static_assert (IsAllSame_value (map reference pack))
    "reference types of iterators do not match"
  (inr (Build_Concatenate pack begin_ last))))).

Definition concat (iterables : list Iterable) : string + Concatenate :=
  concatrange (map iter_traits iterables)
              (map std_begin iterables) (map std_end iterables).

#[export] Instance concatenate_view : View Concatenate ConcatenateIterator := {
  begin := Concatenate_begin;
  end_ := Concatenate_end
}.
End lz_Concatenate.

(** ** [Lz/detail/MapIterator.hpp] *)

Module detail_MapIterator.

(** What the class template asks of its [Iterator] parameter: the operators
    its members call on [_iterator]. [FnParamType] is [decltype( *_iterator)]. *)
Class SourceIterator (Iterator FnParamType : Type) : Type := {
  src_deref : Iterator -> FnParamType;      (* *it *)
  src_preinc : Iterator -> Iterator;        (* ++it *)
  src_predec : Iterator -> Iterator;        (* --it *)
  src_plus_assign : Iterator -> Z -> Iterator;   (* it += offset *)
  src_minus_assign : Iterator -> Z -> Iterator;  (* it -= offset *)
  src_minus : Iterator -> Iterator -> Z;    (* it - other *)
  src_neq : Iterator -> Iterator -> bool;   (* it != other *)
  src_lt : Iterator -> Iterator -> bool     (* it < other *)
}.

(** Modelled from the spec: [FakePointerProxy], declared outside the sources;
    a one-element proxy constructed from the synthesized value, which it
    owns. *)
Record FakePointerProxy (R : Type) : Type := { _t : R }.

(** The member types, lines 22 to 26. [FnReturnType] is
    [detail::FunctionReturnType<Function, FnParamType>], declared outside the
    sources and taken as a parameter. *)
Definition traits (Iterator : iterator_traits) (FnReturnType : string)
  : iterator_traits :=
  {| value_type := FnReturnType;
     iterator_category := iterator_category Iterator;
     difference_type := "std::ptrdiff_t";
     reference := FnReturnType;
     pointer := String.append "FakePointerProxy<"
                  (String.append FnReturnType ">") |}.

Section Def.
Context {Iterator FnParamType FnReturnType : Type}.
Context `{SourceIterator Iterator FnParamType}.

(** [_function] points to the [std::function] owned by the [Map] view; the
    record holds the pointee. *)
Record MapIterator : Type := {
  _iterator : Iterator;
  _function : FnParamType -> FnReturnType
}.

(** The member types as types of the embedding. *)
Definition value_type_of : Type := FnReturnType.
Definition reference_of : Type := value_type_of.
Definition pointer_of : Type := FakePointerProxy reference_of.

(** A member function that changes [*this]: its result and [*this]
    afterwards. *)
Definition Method (A : Type) : Type := MapIterator -> A * MapIterator.

Definition op_deref (this : MapIterator) : value_type_of :=
  _function this (src_deref (_iterator this)).

Definition op_arrow (this : MapIterator) : pointer_of :=
  Build_FakePointerProxy (op_deref this).

Definition op_preinc : Method MapIterator := fun this =>
  let this' := {| _iterator := src_preinc (_iterator this);
                  _function := _function this |} in
  (this', this').

Definition op_postinc : Method MapIterator := fun this =>
  let tmp := this in
  let (_, this') := op_preinc this in
  (tmp, this').

Definition op_predec : Method MapIterator := fun this =>
  let this' := {| _iterator := src_predec (_iterator this);
                  _function := _function this |} in
  (this', this').

Definition op_postdec : Method MapIterator := fun this =>
  let tmp := this in
  let (_, this') := op_predec this in
  (tmp, this').

Definition op_plus_assign (offset : Z) : Method MapIterator := fun this =>
  let this' := {| _iterator := src_plus_assign (_iterator this) offset;
                  _function := _function this |} in
  (this', this').

Definition op_minus_assign (offset : Z) : Method MapIterator := fun this =>
  let this' := {| _iterator := src_minus_assign (_iterator this) offset;
                  _function := _function this |} in
  (this', this').

Definition op_plus (this : MapIterator) (offset : Z) : MapIterator :=
  let tmp := this in
  let (_, tmp') := op_plus_assign offset tmp in
  tmp'.

Definition op_minus (this : MapIterator) (offset : Z) : MapIterator :=
  let tmp := this in
  let (_, tmp') := op_minus_assign offset tmp in
  tmp'.

Definition op_distance (this other : MapIterator) : Z :=
  src_minus (_iterator this) (_iterator other).

Definition op_index (this : MapIterator) (offset : Z) : reference_of :=
  op_deref (op_plus this offset).

Definition op_neq (this other : MapIterator) : bool :=
  src_neq (_iterator this) (_iterator other).

Definition op_eq (this other : MapIterator) : bool :=
  negb (op_neq this other).

Definition op_lt (this other : MapIterator) : bool :=
  src_lt (_iterator this) (_iterator other).

Definition op_gt (this other : MapIterator) : bool :=
  op_lt other this.

Definition op_le (this other : MapIterator) : bool :=
  negb (op_lt other this).

Definition op_ge (this other : MapIterator) : bool :=
  negb (op_lt this other).

End Def.
Arguments MapIterator : clear implicits.
End detail_MapIterator.

(** Pointers into an array as a source of [MapIterator]: positions in [Z],
    read through a store. *)
#[export] Instance pointer_source {A} (m : Z -> A)
  : detail_MapIterator.SourceIterator Z A := {
  src_deref := m;
  src_preinc := Z.succ;
  src_predec := Z.pred;
  src_plus_assign := Z.add;
  src_minus_assign := Z.sub;
  src_minus := Z.sub;
  src_neq := fun p q => negb (Z.eqb p q);
  src_lt := Z.ltb
}.

(** A [MapIterator] is itself a source of [MapIterator]: the operators the
    class template calls on [_iterator] are those it defines.
    [++it], [--it], [it += k] and [it -= k] evaluate to [*this] afterwards. *)
#[export] Instance map_source {Iterator A B}
  `{detail_MapIterator.SourceIterator Iterator A}
  : detail_MapIterator.SourceIterator
      (detail_MapIterator.MapIterator Iterator A B) B := {
  src_deref := detail_MapIterator.op_deref;
  src_preinc := fun it => fst (detail_MapIterator.op_preinc it);
  src_predec := fun it => fst (detail_MapIterator.op_predec it);
  src_plus_assign := fun it k => fst (detail_MapIterator.op_plus_assign k it);
  src_minus_assign := fun it k => fst (detail_MapIterator.op_minus_assign k it);
  src_minus := detail_MapIterator.op_distance;
  src_neq := detail_MapIterator.op_neq;
  src_lt := detail_MapIterator.op_lt
}.

(** ** The adaptors and what they wrap *)




(** ** Notions the properties are stated with *)

(** The longest prefix of a list whose elements all satisfy [p]. *)
Fixpoint prefix_while {A} (p : A -> bool) (l : list A) : list A :=
  match l with
  | [] => []
  | x :: l' => if p x then x :: prefix_while p l' else []
  end.

(** The log of a drain that produces the [k] elements from [p] on and stops at
    the next test: every produced element is read by the test and by the
    dereference, the position after them by the test alone. *)
Definition take_log (p k : nat) : list nat :=
  flat_map (fun q => [q; q]) (seq p k) ++ [p + k].

(** [array[i]]: the element of the store at offset [i] of the iterable. *)
Definition subscript {T} (m : Store T) (s : Iterable) (i : nat) : T :=
  m (base s + i).

(** The elements between the positions and the ends, slot after slot. *)
Fixpoint spans {T} (m : Store T) (ps es : list nat) : list T :=
  match ps, es with
  | p :: ps', e :: es' => span m p (e - p) ++ spans m ps' es'
  | _, _ => []
  end.

(** The number of elements between the positions and the ends. *)
Fixpoint remaining (ps es : list nat) : nat :=
  match ps, es with
  | p :: ps', e :: es' => (e - p) + remaining ps' es'
  | _, _ => 0
  end.

(** All the type names of a pack are one and the same. *)
Definition all_equal (pack : list string) : Prop :=
  forall a b, In a pack -> In b pack -> a = b.

(** The precondition of [concat]: the iterators agree on value, pointer and
    reference type. *)
Definition same_types (pack : list iterator_traits) : Prop :=
  all_equal (map value_type pack) /\
  all_equal (map pointer pack) /\
  all_equal (map reference pack).

(** The minimum of the categories of the cursors an adaptor wraps. *)
Definition minimum_category (wrapped : list iterator_traits) : iterator_tag :=
  fold_right tag_min random_access_iterator_tag
             (map iterator_category wrapped).


(** The iterable without its first [a] elements. *)
Definition suffix (s : Iterable) (a : nat) : Iterable :=
  {| iter_traits := iter_traits s; base := base s + a; size := size s - a |}.

(** The operators that move a cursor, and a cursor moved by one of them: the
    source cursor by its own operator, the map cursor by the member of
    [MapIterator] ([*this] afterwards). *)
Inductive move : Type :=
| pre_increment
| post_increment
| pre_decrement
| post_decrement
| plus_assign (offset : Z)
| minus_assign (offset : Z).

Definition move_source {Iterator A}
  `{detail_MapIterator.SourceIterator Iterator A} (c : Iterator) (mv : move)
  : Iterator :=
  match mv with
  | pre_increment | post_increment => detail_MapIterator.src_preinc c
  | pre_decrement | post_decrement => detail_MapIterator.src_predec c
  | plus_assign k => detail_MapIterator.src_plus_assign c k
  | minus_assign k => detail_MapIterator.src_minus_assign c k
  end.

Definition move_map {Iterator A B}
  `{detail_MapIterator.SourceIterator Iterator A}
  (it : detail_MapIterator.MapIterator Iterator A B) (mv : move)
  : detail_MapIterator.MapIterator Iterator A B :=
  match mv with
  | pre_increment => snd (detail_MapIterator.op_preinc it)
  | post_increment => snd (detail_MapIterator.op_postinc it)
  | pre_decrement => snd (detail_MapIterator.op_predec it)
  | post_decrement => snd (detail_MapIterator.op_postdec it)
  | plus_assign k => snd (detail_MapIterator.op_plus_assign k it)
  | minus_assign k => snd (detail_MapIterator.op_minus_assign k it)
  end.

(** The array of the tests as a source of [MapIterator]. *)
Definition int_array (p : Z) : Z :=
  nth (Z.to_nat p) [1; 2; 3; 4; 5; 6; 7; 8; 9; 10]%Z 0%Z.

(** ** The sequences of the tests

    The array [{1, ..., 10}] of [take-tests.cpp] at the locations 0 to 9 of
    the store, and the pieces [{1, 2, 3}] and [{4, 5}] of it. *)

Definition int_pointer : iterator_traits :=
  {| value_type := "int";
     difference_type := "std::ptrdiff_t";
     pointer := "int*";
     reference := "int&";
     iterator_category := random_access_iterator_tag |}.

Definition int_list_iterator : iterator_traits :=
  {| value_type := "int";
     difference_type := "std::ptrdiff_t";
     pointer := "int*";
     reference := "int&";
     iterator_category := bidirectional_iterator_tag |}.

Definition double_pointer : iterator_traits :=
  {| value_type := "double";
     difference_type := "std::ptrdiff_t";
     pointer := "double*";
     reference := "double&";
     iterator_category := random_access_iterator_tag |}.

Definition memory : Store Z :=
  fun loc => nth loc [1; 2; 3; 4; 5; 6; 7; 8; 9; 10]%Z 0%Z.

Definition array : Iterable :=
  {| iter_traits := int_pointer; base := 0; size := 10 |}.

Definition one_two_three : Iterable :=
  {| iter_traits := int_pointer; base := 0; size := 3 |}.

Definition four_five : Iterable :=
  {| iter_traits := int_list_iterator; base := 3; size := 2 |}.

Definition nothing : Iterable :=
  {| iter_traits := int_pointer; base := 7; size := 0 |}.

Definition is_not_five (i : Z) : bool := negb (Z.eqb i 5).

(** * Properties *)

Unset Implicit Arguments.

(** ** Helper facts on lists and the dereference log *)

Lemma prefix_while_true {A} (l : list A) : prefix_while (fun _ => true) l = l.
Proof. induction l as [|x l IH]; simpl; [reflexivity | now rewrite IH]. Qed.

Lemma prefix_while_split {A} (p : A -> bool) (l : list A) :
  exists rest, l = prefix_while p l ++ rest /\
               forall x rest', rest = x :: rest' -> p x = false.
Proof.
  induction l as [|x l [rest [Hl Hr]]]; simpl.
  - exists []. split; [reflexivity | discriminate].
  - destruct (p x) eqn:Hp.
    + exists rest. split; [simpl; now rewrite <- Hl | exact Hr].
    + exists (x :: l). split; [reflexivity |].
      intros y rest' E. injection E as -> _. exact Hp.
Qed.

Lemma prefix_while_forallb {A} (p : A -> bool) (l : list A) :
  forallb p (prefix_while p l) = true.
Proof.
  induction l as [|x l IH]; simpl; [reflexivity |].
  destruct (p x) eqn:Hp; simpl; [now rewrite Hp | reflexivity].
Qed.

Lemma prefix_while_longest {A} (p : A -> bool) (l pre rest : list A) :
  l = pre ++ rest -> forallb p pre = true ->
  List.length pre <= List.length (prefix_while p l).
Proof.
  revert l rest. induction pre as [|x pre IH]; intros l rest -> Hall; simpl.
  - lia.
  - simpl in Hall. apply andb_prop in Hall as [Hx Hpre].
    rewrite Hx. simpl. apply le_n_S. now apply (IH _ rest).
Qed.

Lemma span_length {T} (m : Store T) (p n : nat) : List.length (span m p n) = n.
Proof. unfold span. now rewrite length_map, length_seq. Qed.

Lemma span_cons {T} (m : Store T) (p n : nat) :
  span m p (S n) = m p :: span m (S p) n.
Proof. reflexivity. Qed.

Lemma seq_firstn (k : nat) :
  forall p n, k <= n -> firstn k (seq p n) = seq p k.
Proof.
  induction k as [|k IH]; intros p n Hk; [reflexivity |].
  destruct n as [|n]; [lia |]. simpl. f_equal. apply IH. lia.
Qed.

Lemma span_firstn {T} (m : Store T) (p n k : nat) :
  k <= n -> firstn k (span m p n) = span m p k.
Proof.
  intros Hk. unfold span. now rewrite firstn_map, seq_firstn.
Qed.

Lemma span_skipn {T} (m : Store T) (p n k : nat) :
  skipn k (span m p n) = span m (p + k) (n - k).
Proof.
  unfold span. now rewrite skipn_map, skipn_seq.
Qed.

Lemma take_log_bound (p k : nat) :
  Forall (fun loc => p <= loc <= p + k) (take_log p k).
Proof.
  unfold take_log. apply Forall_app. split.
  - apply Forall_forall. intros loc Hin.
    apply in_flat_map in Hin as [q [Hq Hloc]].
    apply in_seq in Hq. simpl in Hloc.
    destruct Hloc as [<- | [<- | []]]; lia.
  - constructor; [lia | constructor].
Qed.

(** ** Draining a range and a bounded view *)

Import detail_TakeIterator.

Lemma drain_pointer {T} (m : Store T) :
  forall n p fuel, n < fuel ->
  collected (drain fuel p (p + n) m) = Some (span m p n).
Proof.
  induction n as [|n IH]; intros p fuel Hf;
    (destruct fuel as [|fuel]; [lia |]).
  - simpl. unfold bind, ret. simpl. rewrite Nat.add_0_r, Nat.eqb_refl.
    reflexivity.
  - specialize (IH (S p) fuel ltac:(lia)).
    rewrite span_cons. simpl. unfold bind, ret, load. simpl.
    replace (p =? p + S n) with false by (symmetry; apply Nat.eqb_neq; lia).
    simpl. replace (p + S n) with (S p + n) by lia.
    unfold collected in IH.
    destruct (drain fuel (S p) (S p + n) m) as [r t]. simpl in *.
    now rewrite IH.
Qed.

Lemma drain_take_step {T} (f : T -> bool) (m : Store T) (p e : nat)
  (last : TakeIterator T) (fuel : nat) :
  drain (S fuel) (Build_TakeIterator p e f) last m =
  if f (m p) && negb (p =? e)
  then let r := drain fuel (Build_TakeIterator (S p) e f) last m in
       (option_map (cons (m p)) (fst r), p :: p :: snd r)
  else (Some [], [p]).
Proof.
  simpl. unfold op_neq, op_deref, op_preinc, and_then, bind, ret, load. simpl.
  destruct (f (m p)); simpl; [|reflexivity].
  destruct (p =? e); simpl; [reflexivity |].
  destruct (drain fuel _ last m) as [r t]. simpl.
  now rewrite app_nil_r.
Qed.

Lemma drain_take {T} (f : T -> bool) (m : Store T) :
  forall n p fuel, n < fuel ->
  let run := drain fuel (Build_TakeIterator p (p + n) f)
                        (Build_TakeIterator (p + n) (p + n) f) m in
  collected run = Some (prefix_while f (span m p n)) /\
  dereferenced run = take_log p (List.length (prefix_while f (span m p n))).
Proof.
  induction n as [|n IH]; intros p fuel Hf;
    (destruct fuel as [|fuel]; [lia |]); cbv zeta.
  - rewrite (drain_take_step f m p (p + 0)).
    rewrite Nat.add_0_r, Nat.eqb_refl, andb_false_r. simpl.
    unfold take_log. simpl. rewrite Nat.add_0_r. now split.
  - rewrite (drain_take_step f m p (p + S n)), span_cons. simpl.
    replace (p =? p + S n) with false by (symmetry; apply Nat.eqb_neq; lia).
    rewrite andb_true_r.
    destruct (f (m p)) eqn:Hp.
    + destruct (IH (S p) fuel ltac:(lia)) as [Hc Hd].
      unfold collected, dereferenced in *. cbv zeta in Hc, Hd.
      rewrite Nat.add_succ_r. change (S p + n) with (S (p + n)) in Hc, Hd.
      cbv zeta. simpl fst. simpl snd.
      rewrite Hc, Hd. split; [reflexivity |].
      unfold take_log. simpl.
      now rewrite Nat.add_succ_r.
    + unfold collected, dereferenced, take_log. simpl.
      rewrite Nat.add_0_r. now split.
Qed.

Import lz_Take.

Lemma toVector_iterable {T} (m : Store T) (s : Iterable) (fuel : nat) :
  size s < fuel -> collected (toVector fuel s m) = Some (elements m s).
Proof. intros Hf. now apply drain_pointer. Qed.

Lemma toVector_takerange {T} (m : Store T) (p n fuel : nat) :
  n < fuel ->
  collected (toVector fuel (takerange T p (p + n)) m) = Some (span m p n).
Proof.
  intros Hf. destruct (drain_take (fun _ : T => true) m n p fuel Hf) as [Hc _].
  unfold toVector. simpl. rewrite Hc. now rewrite prefix_while_true.
Qed.

Lemma iter_preinc {T} (k : nat) (it : TakeIterator T) :
  op_deref (Nat.iter k (@op_preinc T) it) = k + op_deref it.
Proof.
  induction k as [|k IH]; [reflexivity |].
  simpl Nat.iter. unfold op_deref in *. simpl in *. now rewrite IH.
Qed.

(** ** Take, take-while and slice *)

(** C1. For every sequence [s] and every [n] with [0 <= n <= length s],
    collecting [take(s, n)] yields exactly [n] elements, the first [n] of
    collecting [s]; [take(s, 0)] yields nothing and [take(s, length s)]
    yields all of [s]. *)
Theorem take_bounds {T} (m : Store T) (s : Iterable) (n fuel : nat) :
  n <= size s -> size s < fuel ->
  exists l,
    collected (toVector fuel s m) = Some l /\
    collected (toVector fuel (take T s n) m) = Some (firstn n l) /\
    List.length (firstn n l) = n /\
    collected (toVector fuel (take T s 0) m) = Some [] /\
    collected (toVector fuel (take T s (size s)) m) = Some l.
Proof.
  intros Hn Hf. exists (elements m s).
  split; [now apply toVector_iterable |].
  unfold take, std_next, std_begin, elements.
  repeat split.
  - rewrite toVector_takerange by lia. now rewrite span_firstn.
  - rewrite span_firstn by exact Hn. apply span_length.
  - now rewrite toVector_takerange by lia.
  - now rewrite toVector_takerange by lia.
Qed.

(** C2. For every sequence [s] and predicate [p], collecting
    [takeWhile(s, p)] yields the longest prefix of collecting [s] whose
    elements all satisfy [p]; the element right after that prefix, if any,
    does not satisfy [p]; and no location past that element is dereferenced
    during the iteration. *)
Theorem takewhile_boundary {T} (m : Store T) (s : Iterable) (p : T -> bool)
  (fuel : nat) :
  size s < fuel ->
  exists l res rest,
    collected (toVector fuel s m) = Some l /\
    collected (toVector fuel (takewhile s p) m) = Some res /\
    l = res ++ rest /\
    forallb p res = true /\
    (forall pre post, l = pre ++ post -> forallb p pre = true ->
                      List.length pre <= List.length res) /\
    (forall x rest', rest = x :: rest' -> p x = false) /\
    Forall (fun loc => loc <= base s + List.length res)
           (dereferenced (toVector fuel (takewhile s p) m)).
Proof.
  intros Hf.
  destruct (prefix_while_split p (elements m s)) as [rest [Hl Hrest]].
  destruct (drain_take p m (size s) (base s) fuel Hf) as [Hc Hd].
  exists (elements m s), (prefix_while p (elements m s)), rest.
  split; [now apply toVector_iterable |].
  split; [exact Hc |].
  split; [exact Hl |].
  split; [apply prefix_while_forallb |].
  split; [intros pre post E Hall; now apply (prefix_while_longest p _ pre post E) |].
  split; [exact Hrest |].
  unfold toVector, takewhile, takewhilerange, Take_ctor, std_begin, std_end.
  simpl. unfold dereferenced in *. cbv zeta in Hd. rewrite Hd.
  eapply Forall_impl; [| apply take_log_bound].
  simpl. intros loc H. apply H.
Qed.

(** C4. For every sequence [s] and offsets [a <= b <= length s], collecting
    [slice(s, a, b)] equals collecting [take(s, b)] with its first [a]
    elements dropped. *)
Theorem slice_composition {T} (m : Store T) (s : Iterable) (a b fuel : nat) :
  a <= b -> b <= size s -> b < fuel ->
  exists l,
    collected (toVector fuel (take T s b) m) = Some l /\
    collected (toVector fuel (slice T s a b) m) = Some (skipn a l).
Proof.
  intros Hab Hb Hf. exists (span m (base s) b).
  unfold take, slice, std_next, std_begin. split.
  - now apply toVector_takerange.
  - rewrite span_skipn.
    replace (base s + b) with (base s + a + (b - a)) by lia.
    apply toVector_takerange. lia.
Qed.

(** C9. Assigning through the dereferenced cursor of a take view over a
    mutable array writes the element of the array the cursor stands at (after
    [k] increments from [begin()], element [k]; [array[0]] for [begin()]
    itself) and leaves every other element as it was. *)
Theorem take_assign_through {T} (m : Store T) (s : Iterable) (n k : nat)
  (v : T) :
  k < n -> n <= size s ->
  let it := Nat.iter k incr (begin (take T s n)) in
  let m' := assign m (deref (T := T) it) v in
  subscript m' s k = v /\
  (forall i, i <> k -> subscript m' s i = subscript m s i) /\
  (forall loc, loc <> base s + k -> m' loc = m loc).
Proof.
  intros _ _. cbv zeta. simpl deref. simpl incr. rewrite iter_preinc.
  unfold take, takerange, takewhilerange, Take_ctor, std_begin. simpl.
  unfold subscript, assign, op_deref. simpl.
  repeat split.
  - replace (base s + k =? k + base s) with true
      by (symmetry; apply Nat.eqb_eq; lia).
    reflexivity.
  - intros i Hi.
    replace (base s + i =? k + base s) with false
      by (symmetry; apply Nat.eqb_neq; lia).
    reflexivity.
  - intros loc Hloc.
    replace (loc =? k + base s) with false
      by (symmetry; apply Nat.eqb_neq; lia).
    reflexivity.
Qed.

(** ** Draining a fused view *)

Import detail_ConcatenateIterator.

Lemma active_slot_skip (e : nat) (rest ends : list nat) :
  rest <> [] -> active_slot (e :: rest) (e :: ends) = S (active_slot rest ends).
Proof.
  intros Hr. destruct rest as [|i rest]; [contradiction |].
  simpl. now rewrite Nat.eqb_refl.
Qed.

Lemma active_slot_here (i e : nat) (rest ends : list nat) :
  i <> e -> active_slot (i :: rest) (e :: ends) = 0.
Proof.
  intros Hi. destruct rest as [|j rest]; [reflexivity |].
  simpl. apply Nat.eqb_neq in Hi. now rewrite Hi.
Qed.

(** The invariant of the data model holds of the active slot: it is a slot of
    the tuple; its cursor is before its end, unless it is the last slot and
    every cursor is at its end (the composite end). *)
Lemma active_slot_invariant (ps es : list nat) :
  Forall2 le ps es -> ps <> [] ->
  active_slot ps es < List.length ps /\
  (nth (active_slot ps es) ps 0 < nth (active_slot ps es) es 0 \/
   (S (active_slot ps es) = List.length ps /\ ps = es)).
Proof.
  intros Hle. induction Hle as [|p e ps es Hpe Hle IH]; [easy |]. intros _.
  destruct ps as [|p' ps].
  - inversion Hle; subst. simpl. split; [lia |].
    destruct (Nat.eq_dec p e) as [-> | Hne]; [right; auto | left; lia].
  - destruct (Nat.eq_dec p e) as [-> | Hne].
    + rewrite active_slot_skip by discriminate.
      destruct (IH ltac:(discriminate)) as [Hlt Hcase].
      change (List.length (e :: p' :: ps)) with (S (List.length (p' :: ps))).
      split; [lia |].
      destruct Hcase as [Hin | [Hlast Heq]].
      * left. exact Hin.
      * right. split; [lia | now rewrite Heq].
    + rewrite active_slot_here by exact Hne. simpl. split; [lia |].
      left. lia.
Qed.

Lemma advance_nonempty (k : nat) (its : list nat) :
  its <> [] -> advance k its <> [].
Proof. destruct its as [|i its]; [contradiction |]. destruct k; discriminate. Qed.

Lemma drain_concat_step {T} (m : Store T) (it last : ConcatenateIterator)
  (fuel : nat) :
  drain (S fuel) it last m =
  if op_neq it last
  then let r := drain fuel (op_preinc it) last m in
       (option_map (cons (m (current it))) (fst r), current it :: snd r)
  else (Some [], []).
Proof.
  simpl. unfold bind, ret, load. simpl.
  destruct (op_neq it last); [|reflexivity].
  destruct (drain fuel (op_preinc it) last m) as [r t]. simpl.
  now rewrite app_nil_r.
Qed.

(** A slot that is exhausted and is not the last plays no part: the fused
    cursor behaves as the one over the remaining slots. *)
Lemma drain_concat_skip {T} (m : Store T) (e : nat) (es bs bs' : list nat) :
  es <> [] ->
  forall fuel ps, ps <> [] ->
  drain fuel (Build_ConcatenateIterator (e :: ps) bs (e :: es))
             (Build_ConcatenateIterator (e :: es) bs (e :: es)) m =
  drain fuel (Build_ConcatenateIterator ps bs' es)
             (Build_ConcatenateIterator es bs' es) m.
Proof.
  intros Hes. induction fuel as [|fuel IH]; intros ps Hps; [reflexivity |].
  rewrite !drain_concat_step.
  unfold op_neq, op_eq, op_preinc, current, active. simpl _iterators.
  simpl _end. simpl _begin.
  rewrite !active_slot_skip by assumption.
  change (nth (S ?k) (e :: ?l) 0) with (nth k l 0).
  change (S ?a =? S ?b) with (a =? b).
  destruct (negb _); [|reflexivity].
  cbv zeta. change (advance (S ?k) (e :: ps)) with (e :: advance k ps).
  rewrite IH by now apply advance_nonempty.
  reflexivity.
Qed.

Lemma drain_concat {T} (m : Store T) (bs : list nat) :
  forall ps es, Forall2 le ps es -> ps <> [] ->
  forall fuel, remaining ps es < fuel ->
  collected (drain fuel (Build_ConcatenateIterator ps bs es)
                        (Build_ConcatenateIterator es bs es) m)
  = Some (spans m ps es).
Proof.
  intros ps es Hle. induction Hle as [|p e ps es Hpe Hle IH]; [easy |].
  intros _ fuel. remember (e - p) as d eqn:Hd.
  revert p Hpe Hd fuel.
  induction d as [|d IHd]; intros p Hpe Hd fuel Hf.
  - assert (p = e) as -> by lia. simpl spans. rewrite Nat.sub_diag. simpl.
    simpl in Hf. rewrite Nat.sub_diag in Hf. simpl in Hf.
    destruct ps as [|p' ps].
    + inversion Hle; subst. destruct fuel as [|fuel]; [lia |].
      rewrite drain_concat_step.
      unfold op_neq, op_eq, current, active. simpl.
      rewrite Nat.eqb_refl. reflexivity.
    + assert (es <> []) by (inversion Hle; discriminate).
      rewrite (drain_concat_skip m e es bs bs) by easy.
      apply IH; [discriminate | exact Hf].
  - destruct fuel as [|fuel]; [lia |].
    assert (Hne : p <> e) by lia.
    rewrite drain_concat_step.
    assert (Hneq : op_neq (Build_ConcatenateIterator (p :: ps) bs (e :: es))
                          (Build_ConcatenateIterator (e :: es) bs (e :: es))
                   = true).
    { unfold op_neq, op_eq, current, active. simpl _iterators. simpl _end.
      rewrite active_slot_here by exact Hne.
      destruct es as [|e' es].
      - simpl. apply Nat.eqb_neq in Hne. now rewrite Hne.
      - rewrite active_slot_skip by discriminate. reflexivity. }
    rewrite Hneq. cbv zeta.
    unfold op_preinc, current, active. simpl _iterators. simpl _end.
    simpl _begin. rewrite active_slot_here by exact Hne. simpl nth.
    simpl advance.
    assert (Hrec := IHd (S p) ltac:(lia) ltac:(lia) fuel).
    simpl remaining in Hrec, Hf.
    specialize (Hrec ltac:(lia)).
    unfold collected in *. simpl fst. rewrite Hrec.
    simpl spans. replace (e - p) with (S (e - S p)) by lia.
    rewrite span_cons. reflexivity.
Qed.

Lemma spans_iterables {T} (m : Store T) (ss : list Iterable) :
  spans m (map std_begin ss) (map std_end ss) = flat_map (elements m) ss.
Proof.
  induction ss as [|s ss IH]; [reflexivity |].
  simpl. rewrite IH. unfold std_end, std_begin, elements.
  now replace (base s + size s - base s) with (size s) by lia.
Qed.

Lemma remaining_iterables (ss : list Iterable) :
  remaining (map std_begin ss) (map std_end ss) = list_sum (map size ss).
Proof.
  induction ss as [|s ss IH]; [reflexivity |].
  simpl. rewrite IH. unfold std_end, std_begin. lia.
Qed.

Lemma bounds_iterables (ss : list Iterable) :
  Forall2 le (map std_begin ss) (map std_end ss).
Proof.
  induction ss as [|s ss IH]; simpl; constructor; [|exact IH].
  unfold std_begin, std_end. lia.
Qed.

Lemma flat_map_length_sum {T} (m : Store T) (ss : list Iterable) :
  List.length (flat_map (elements m) ss) = list_sum (map size ss).
Proof.
  induction ss as [|s ss IH]; [reflexivity |].
  simpl. rewrite length_app, IH. unfold elements. now rewrite span_length.
Qed.

(** ** Concatenation *)

Import lz_Concatenate.

Lemma IsAllSame_spec (More : list string) :
  forall Same First,
  IsAllSame Same First More = true <-> all_equal (Same :: First :: More).
Proof.
  unfold all_equal, is_same.
  induction More as [|Next More IH]; intros Same First; simpl IsAllSame.
  - unfold is_same. rewrite String.eqb_eq. split.
    + intros -> a b [<- | [<- | []]] [<- | [<- | []]]; reflexivity.
    + intros Hall. apply Hall; simpl; auto.
  - unfold is_same. rewrite andb_true_iff, String.eqb_eq, IH. split.
    + intros [-> Hall] a b Ha Hb. apply Hall.
      * destruct Ha as [<- | Ha]; [now left | exact Ha].
      * destruct Hb as [<- | Hb]; [now left | exact Hb].
    + intros Hall. split.
      * apply Hall; simpl; auto.
      * intros a b Ha Hb. apply Hall; now right.
Qed.

Lemma IsAllSame_value_spec (pack : list string) :
  IsAllSame_value pack = Some true <-> 2 <= List.length pack /\ all_equal pack.
Proof.
  destruct pack as [|Same [|First More]]; simpl.
  - split; [discriminate | intros [H _]; lia].
  - split; [discriminate | intros [H _]; lia].
  - rewrite <- IsAllSame_spec. split.
    + intros [= ->]. split; [lia | reflexivity].
    + intros [_ ->]. reflexivity.
Qed.

Lemma static_assert_inr {A} (cond : option bool) (msg : string)
  (k : string + A) (a : A) :
  static_assert cond msg k = inr a <-> cond = Some true /\ k = inr a.
Proof.
  unfold static_assert. destruct cond as [[|]|]; split;
    try discriminate; try (intros [H _]; discriminate).
  - intros ->. now split.
  - now intros [_ ->].
Qed.

(** [concatrange] hands out a view exactly when the pack has two iterator
    types or more and they agree. *)
Lemma concatrange_accepts (pack : list iterator_traits) (b e : list nat)
  (view : Concatenate) :
  concatrange pack b e = inr view <->
  2 <= List.length pack /\ same_types pack /\
  view = Build_Concatenate pack b e.
Proof.
  unfold concatrange, same_types.
  rewrite !static_assert_inr, !IsAllSame_value_spec, !length_map.
  split.
  - intros [Hlen [[_ Hv] [[_ Hp] [[_ Hr] Hview]]]].
    assert (Hlen' : (2 <=? List.length pack) = true) by congruence.
    apply Nat.leb_le in Hlen'. injection Hview as <-. auto.
  - intros [Hlen [[Hv [Hp Hr]] ->]].
    apply Nat.leb_le in Hlen as Hlen'. rewrite Hlen'. auto 10.
Qed.

Lemma concatrange_total (pack : list iterator_traits) (b e : list nat) :
  (exists msg, concatrange pack b e = inl msg) \/
  concatrange pack b e = inr (Build_Concatenate pack b e).
Proof.
  unfold concatrange, static_assert.
  repeat match goal with
         | |- context [match ?c with _ => _ end] => destruct c
         end; eauto.
Qed.

(** C3. For every tuple of two sequences or more whose iterators agree on
    their element (value, pointer and reference) type, [concat] builds a view,
    and collecting it yields the concatenation, in order, of what collecting
    each sequence yields; its length is the sum of the lengths. *)
Theorem concat_length_order {T} (m : Store T) (ss : list Iterable)
  (fuel : nat) :
  2 <= List.length ss ->
  same_types (map iter_traits ss) ->
  list_sum (map size ss) < fuel ->
  exists view ls,
    lz_Concatenate.concat ss = inr view /\
    Forall2 (fun s l => collected (toVector fuel s m) = Some l) ss ls /\
    collected (toVector fuel view m) = Some (List.concat ls) /\
    List.length (List.concat ls) = list_sum (map size ss) /\
    List.length (List.concat ls) = list_sum (map (@List.length T) ls).
Proof.
  intros Hlen Hty Hf.
  exists (Build_Concatenate (map iter_traits ss)
                            (map std_begin ss) (map std_end ss)).
  exists (map (elements m) ss).
  split; [| split; [| split; [| split]]].
  - unfold lz_Concatenate.concat. apply concatrange_accepts.
    rewrite length_map. auto.
  - clear Hlen Hty. induction ss as [|s ss IH]; simpl; constructor.
    + apply toVector_iterable. simpl in Hf. lia.
    + apply IH. simpl in Hf. lia.
  - unfold toVector. simpl begin. simpl end_.
    unfold Concatenate_begin, Concatenate_end. simpl.
    rewrite drain_concat.
    + now rewrite spans_iterables, flat_map_concat_map.
    + apply bounds_iterables.
    + destruct ss; [simpl in Hlen; lia | discriminate].
    + now rewrite remaining_iterables.
  - rewrite <- flat_map_concat_map. apply flat_map_length_sum.
  - rewrite length_concat. reflexivity.
Qed.

(** C7. A concatenation of fewer than two sequences, or of sequences whose
    value, pointer or reference types differ, is rejected when it is
    constructed: [concatrange], and [concat] through it, stop at a
    [static_assert] and hand out no view. *)
Theorem concat_rejected_at_construction (pack : list iterator_traits)
  (b e : list nat) :
  List.length pack < 2 \/
  ~ all_equal (map value_type pack) \/
  ~ all_equal (map pointer pack) \/
  ~ all_equal (map reference pack) ->
  (exists msg, concatrange pack b e = inl msg) /\
  (forall view, concatrange pack b e <> inr view) /\
  (forall ss, map iter_traits ss = pack ->
              exists msg, lz_Concatenate.concat ss = inl msg).
Proof.
  intros Hbad.
  assert (Hno : forall b' e' view, concatrange pack b' e' <> inr view).
  { intros b' e' view Hv. apply concatrange_accepts in Hv.
    destruct Hv as [Hlen [[Hv [Hp Hr]] _]].
    destruct Hbad as [H | [H | [H | H]]]; [lia | auto | auto | auto]. }
  assert (Hrej : forall b' e', exists msg, concatrange pack b' e' = inl msg).
  { intros b' e'. destruct (concatrange_total pack b' e') as [H | H];
      [exact H | now apply Hno in H]. }
  split; [apply Hrej | split; [apply Hno |]].
  intros ss <-. apply Hrej.
Qed.

(** ** The transform cursor *)

Section MapIteratorProperties.
Import detail_MapIterator.
Context {Iterator FnParamType FnReturnType : Type}.
Context `{SourceIterator Iterator FnParamType}.

(** C5. Dereferencing the map cursor over source cursor [c] with stored
    function [f] returns the value [f ( *c)], of the value type (the
    reference type of the cursor is its value type); member access goes
    through a proxy that owns that one synthesized value. *)
Theorem map_dereference_by_value (c : Iterator)
  (f : FnParamType -> FnReturnType) :
  let it : MapIterator Iterator FnParamType FnReturnType :=
    Build_MapIterator c f in
  op_deref it = f (src_deref c) /\
  op_arrow it = Build_FakePointerProxy (f (src_deref c)) /\
  _t (op_arrow it) = op_deref it /\
  (forall Source Ret,
      reference (traits Source Ret) = value_type (traits Source Ret) /\
      value_type (traits Source Ret) = Ret /\
      pointer (traits Source Ret) =
        String.append "FakePointerProxy<"
          (String.append (reference (traits Source Ret)) ">")).
Proof.
  cbv zeta. repeat split.
Qed.

(** C6. The comparison operators of two map cursors: [!=] is the source
    cursors' [!=] and [==] is its negation; [<] is the source cursors' [<],
    [a > b] is [b < a], [a <= b] is [!(b < a)] and [a >= b] is [!(a < b)]. *)
Theorem map_comparisons
  (a b : MapIterator Iterator FnParamType FnReturnType) :
  op_neq a b = src_neq (_iterator a) (_iterator b) /\
  op_eq a b = negb (op_neq a b) /\
  (op_eq a b = true <-> op_neq a b <> true) /\
  op_lt a b = src_lt (_iterator a) (_iterator b) /\
  op_gt a b = op_lt b a /\
  (op_gt a b = true <-> op_lt b a = true) /\
  op_le a b = negb (op_lt b a) /\
  (op_le a b = true <-> op_lt b a <> true) /\
  op_ge a b = negb (op_lt a b) /\
  (op_ge a b = true <-> op_lt a b <> true).
Proof.
  unfold op_eq, op_gt, op_le, op_ge.
  repeat split; try reflexivity; try tauto;
    try (rewrite negb_true_iff; intros E; now rewrite E);
    try (rewrite negb_true_iff; apply not_true_is_false).
Qed.

(** C10. Post-increment returns the cursor as it was before the call and
    leaves it as pre-increment does; post-decrement returns the cursor as it
    was and leaves it as pre-decrement does. *)
Theorem map_post_step (it : MapIterator Iterator FnParamType FnReturnType) :
  (fst (op_postinc it) = it /\
   snd (op_postinc it) = snd (op_preinc it) /\
   snd (op_postinc it) = fst (op_preinc it)) /\
  (fst (op_postdec it) = it /\
   snd (op_postdec it) = snd (op_predec it) /\
   snd (op_postdec it) = fst (op_predec it)).
Proof.
  unfold op_postinc, op_postdec, op_preinc, op_predec. simpl. auto 10.
Qed.

End MapIteratorProperties.

(** ** Categories *)

Lemma tag_min_leb (t a b : iterator_tag) :
  tag_leb t (tag_min a b) = tag_leb t a && tag_leb t b.
Proof. destruct t, a, b; reflexivity. Qed.

Lemma minimum_category_lower_bound (pack : list iterator_traits)
  (w : iterator_traits) :
  In w pack ->
  tag_leb (minimum_category pack) (iterator_category w) = true.
Proof.
  unfold minimum_category.
  induction pack as [|x pack IH]; [contradiction |].
  intros [-> | Hin]; simpl.
  - destruct (iterator_category w), (fold_right _ _ _); reflexivity.
  - specialize (IH Hin).
    destruct (iterator_category x), (iterator_category w),
      (fold_right _ _ _); try reflexivity; discriminate.
Qed.

Lemma minimum_category_supports (t : iterator_tag)
  (pack : list iterator_traits) :
  tag_leb t (minimum_category pack) =
  forallb (fun w => tag_leb t (iterator_category w)) pack.
Proof.
  unfold minimum_category.
  induction pack as [|x pack IH]; simpl.
  - now destruct t.
  - now rewrite tag_min_leb, IH.
Qed.



(** ** The tests of [take-tests.cpp] and the examples of the specification *)

Lemma same_types_checked (pack : list iterator_traits) :
  IsAllSame_value (map value_type pack) = Some true ->
  IsAllSame_value (map pointer pack) = Some true ->
  IsAllSame_value (map reference pack) = Some true ->
  same_types pack.
Proof.
  intros Hv Hp Hr. repeat split; now apply IsAllSame_value_spec.
Qed.

Lemma toVector_takewhile_log {T} (m : Store T) (s : Iterable) (p : T -> bool)
  (fuel : nat) :
  size s < fuel ->
  dereferenced (toVector fuel (takewhile s p) m) =
  take_log (base s) (List.length (prefix_while p (elements m s))).
Proof.
  intros Hf. now destruct (drain_take p m (size s) (base s) fuel Hf).
Qed.

Example take_three :
  toVector 4 (take Z array 3) memory
  = (Some [1; 2; 3]%Z, [0; 0; 1; 1; 2; 2; 3]).
Proof. reflexivity. Qed.

Example slice_two_to_four :
  collected (toVector 3 (slice Z array 2 4) memory) = Some [3; 4]%Z.
Proof. reflexivity. Qed.

Example takewhile_not_five :
  toVector 11 (takewhile array is_not_five) memory
  = (Some [1; 2; 3; 4]%Z, [0; 0; 1; 1; 2; 2; 3; 3; 4]).
Proof. reflexivity. Qed.

Example take_by_reference :
  subscript (assign memory (deref (T := Z) (begin (take Z array 3))) 0%Z)
            array 0 = 0%Z.
Proof. reflexivity. Qed.

Example concat_three_and_two :
  match lz_Concatenate.concat [one_two_three; four_five] with
  | inr view => collected (toVector 6 view memory) = Some [1; 2; 3; 4; 5]%Z
  | inl _ => False
  end.
Proof. reflexivity. Qed.

Example concat_around_nothing :
  match lz_Concatenate.concat [nothing; one_two_three; nothing; four_five] with
  | inr view => collected (toVector 6 view memory) = Some [1; 2; 3; 4; 5]%Z
  | inl _ => False
  end.
Proof. reflexivity. Qed.

Example concat_switches_slot :
  match lz_Concatenate.concat [one_two_three; four_five] with
  | inr view =>
      let it := Nat.iter 3 (incr (T := Z)) (begin view) in
      detail_ConcatenateIterator.active (Nat.iter 2 (incr (T := Z)) (begin view)) = 0 /\
      detail_ConcatenateIterator.active it = 1 /\
      deref (T := Z) it = std_begin four_five /\
      Nat.iter 5 (incr (T := Z)) (begin view) = end_ view
  | inl _ => False
  end.
Proof. simpl. repeat split. Qed.

Example concat_of_one :
  lz_Concatenate.concat [array]
  = inl "amount of iterators/containers cannot be less than or equal to 1"%string.
Proof. reflexivity. Qed.

Example concat_int_and_double :
  concatrange [int_pointer; double_pointer] [0; 0] [3; 2]
  = inl "value types of iterators do not match"%string.
Proof. reflexivity. Qed.

Example map_doubles :
  let H := pointer_source (fun p => nth (Z.to_nat p) [1; 2; 3]%Z 0%Z) in
  let it := detail_MapIterator.Build_MapIterator 0%Z (fun x => 2 * x)%Z in
  detail_MapIterator.op_deref (fst (detail_MapIterator.op_postinc it)) = 2%Z /\
  detail_MapIterator.op_deref (snd (detail_MapIterator.op_postinc it)) = 4%Z /\
  detail_MapIterator.op_index it 2 = 6%Z.
Proof. cbv zeta. repeat split. Qed.

(** ** The theorems at the sequences of the tests *)

Lemma take_bounds_witness :
  exists l,
    collected (toVector 11 array memory) = Some l /\
    collected (toVector 11 (take Z array 3) memory) = Some (firstn 3 l) /\
    List.length (firstn 3 l) = 3 /\
    collected (toVector 11 (take Z array 0) memory) = Some [] /\
    collected (toVector 11 (take Z array (size array)) memory) = Some l.
Proof.
  apply (take_bounds memory array 3 11); simpl; lia.
Defined.

Lemma takewhile_boundary_witness :
  exists l res rest,
    collected (toVector 11 array memory) = Some l /\
    collected (toVector 11 (takewhile array is_not_five) memory) = Some res /\
    l = res ++ rest /\
    forallb is_not_five res = true /\
    (forall pre post, l = pre ++ post -> forallb is_not_five pre = true ->
                      List.length pre <= List.length res) /\
    (forall x rest', rest = x :: rest' -> is_not_five x = false) /\
    Forall (fun loc => loc <= base array + List.length res)
           (dereferenced (toVector 11 (takewhile array is_not_five) memory)).
Proof.
  apply (takewhile_boundary memory array is_not_five 11); simpl; lia.
Defined.

Lemma slice_composition_witness :
  exists l,
    collected (toVector 5 (take Z array 4) memory) = Some l /\
    collected (toVector 5 (slice Z array 2 4) memory) = Some (skipn 2 l).
Proof.
  apply (slice_composition memory array 2 4 5); simpl; lia.
Defined.

Lemma take_assign_through_witness :
  let it := Nat.iter 0 incr (begin (take Z array 3)) in
  let m' := assign memory (deref (T := Z) it) 0%Z in
  subscript m' array 0 = 0%Z /\
  (forall i, i <> 0 -> subscript m' array i = subscript memory array i) /\
  (forall loc, loc <> base array + 0 -> m' loc = memory loc).
Proof.
  apply (take_assign_through memory array 3 0 0%Z); simpl; lia.
Defined.

Lemma concat_length_order_witness :
  exists view ls,
    lz_Concatenate.concat [one_two_three; four_five] = inr view /\
    Forall2 (fun s l => collected (toVector 6 s memory) = Some l)
            [one_two_three; four_five] ls /\
    collected (toVector 6 view memory) = Some (List.concat ls) /\
    List.length (List.concat ls)
      = list_sum (map size [one_two_three; four_five]) /\
    List.length (List.concat ls) = list_sum (map (@List.length Z) ls).
Proof.
  apply (concat_length_order memory [one_two_three; four_five] 6).
  - simpl; lia.
  - apply same_types_checked; reflexivity.
  - simpl; lia.
Defined.

Lemma concat_rejected_at_construction_witness :
  (exists msg, concatrange [int_pointer] [0] [10] = inl msg) /\
  (forall view, concatrange [int_pointer] [0] [10] <> inr view) /\
  (forall ss, map iter_traits ss = [int_pointer] ->
              exists msg, lz_Concatenate.concat ss = inl msg).
Proof.
  apply (concat_rejected_at_construction [int_pointer] [0] [10]).
  left. simpl. lia.
Defined.


(** ** More on the transform cursor *)

Section MapIteratorLaws.
Import detail_MapIterator.
Context {Iterator FnParamType FnReturnType : Type}.
Context `{SourceIterator Iterator FnParamType}.

Lemma move_map_step (it : MapIterator Iterator FnParamType FnReturnType)
  (mv : move) :
  move_map it mv =
  Build_MapIterator (move_source (_iterator it) mv) (_function it).
Proof. destruct mv; reflexivity. Qed.

Lemma fold_move_map (mvs : list move) :
  forall it : MapIterator Iterator FnParamType FnReturnType,
  fold_left move_map mvs it =
  Build_MapIterator (fold_left move_source mvs (_iterator it)) (_function it).
Proof.
  induction mvs as [|mv mvs IH]; intros it; simpl.
  - now destruct it.
  - rewrite IH, move_map_step. reflexivity.
Qed.

(** X1. However a map cursor is moved by [++], [--] (pre or post), [+=] and
    [-=], it keeps its function and its source cursor is the source cursor
    moved by the same operators; dereferencing it yields the function applied
    to the source's element there. *)
Theorem map_moves_delegate
  (it : MapIterator Iterator FnParamType FnReturnType) (mvs : list move) :
  _function (fold_left move_map mvs it) = _function it /\
  _iterator (fold_left move_map mvs it)
    = fold_left move_source mvs (_iterator it) /\
  op_deref (fold_left move_map mvs it)
    = _function it (src_deref (fold_left move_source mvs (_iterator it))).
Proof.
  rewrite fold_move_map. repeat split.
Qed.

(** X2. When the source's [--] undoes its [++] and back, so do those of the
    map cursor, pre and post. *)
Theorem map_increment_decrement_round_trip
  (it : MapIterator Iterator FnParamType FnReturnType) :
  (forall c : Iterator, src_predec (src_preinc c) = c) ->
  (forall c : Iterator, src_preinc (src_predec c) = c) ->
  snd (op_predec (snd (op_preinc it))) = it /\
  snd (op_preinc (snd (op_predec it))) = it /\
  snd (op_postdec (snd (op_postinc it))) = it /\
  snd (op_postinc (snd (op_postdec it))) = it.
Proof.
  intros Hdi Hid. destruct it as [c f].
  unfold op_postinc, op_postdec, op_preinc, op_predec. simpl.
  now rewrite Hdi, Hid.
Qed.

(** X3. When the source's [-=] undoes its [+=] and the distance to a source
    cursor advanced by [k] is [k], the same holds of the map cursor:
    [(it + k) - k] is [it], and [(it + k) - it] is [k]. *)
Theorem map_offset_round_trip
  (it : MapIterator Iterator FnParamType FnReturnType) (k : Z) :
  (forall (c : Iterator) j, src_minus_assign (src_plus_assign c j) j = c) ->
  (forall (c : Iterator) j, src_minus (src_plus_assign c j) c = j) ->
  op_minus (op_plus it k) k = it /\
  op_distance (op_plus it k) it = k /\
  snd (op_minus_assign k (snd (op_plus_assign k it))) = it.
Proof.
  intros Hback Hdist. destruct it as [c f].
  unfold op_minus, op_plus, op_distance, op_minus_assign, op_plus_assign.
  simpl. now rewrite Hback, Hdist.
Qed.

(** X4. When the source's [!=] is false exactly on equal source cursors,
    [==] on map cursors holds exactly when their source cursors are equal:
    the stored functions take no part in the comparison. *)
Theorem map_equality_compares_positions
  (a b : MapIterator Iterator FnParamType FnReturnType) :
  (forall c d : Iterator, src_neq c d = false <-> c = d) ->
  (op_eq a b = true <-> _iterator a = _iterator b) /\
  (forall g, op_eq a (Build_MapIterator (_iterator a) g) = true).
Proof.
  intros Hneq. unfold op_eq, op_neq. split.
  - rewrite negb_true_iff. apply Hneq.
  - intros g. simpl. apply negb_true_iff. now apply Hneq.
Qed.

(** X5. The four ordering operators of the map cursor agree with each other
    whatever the source's [<] is: [a <= b] is [b >= a], [a < b] is [b > a],
    and [<=] and [>], as [<] and [>=], are each other's negation. *)
Theorem map_ordering_consistent
  (a b : MapIterator Iterator FnParamType FnReturnType) :
  op_le a b = op_ge b a /\
  op_lt a b = op_gt b a /\
  op_le a b = negb (op_gt a b) /\
  op_gt a b = negb (op_le a b) /\
  op_lt a b = negb (op_ge a b).
Proof.
  unfold op_le, op_ge, op_gt. rewrite !negb_involutive. repeat split.
Qed.

(** X6. When the source's [!=] holds exactly where one source cursor is [<]
    the other, [a == b] on map cursors is [a <= b && a >= b]. *)
Theorem map_equality_from_ordering
  (a b : MapIterator Iterator FnParamType FnReturnType) :
  (forall c d : Iterator, src_neq c d = src_lt c d || src_lt d c) ->
  op_eq a b = op_le a b && op_ge a b.
Proof.
  intros Hneq. unfold op_eq, op_le, op_ge, op_neq, op_lt.
  rewrite Hneq, negb_orb. apply andb_comm.
Qed.

End MapIteratorLaws.

Section MapOfMap.
Import detail_MapIterator.
Context {Iterator A B C : Type}.
Context `{SourceIterator Iterator A}.

Lemma move_source_map (it : MapIterator Iterator A B) (mv : move) :
  move_source it mv = move_map it mv.
Proof. destruct mv; reflexivity. Qed.

Lemma fold_move_source_map (mvs : list move) :
  forall it : MapIterator Iterator A B,
  fold_left move_source mvs it = fold_left move_map mvs it.
Proof.
  induction mvs as [|mv mvs IH]; intros it; simpl; [reflexivity |].
  now rewrite move_source_map, IH.
Qed.

(** X7. A map cursor over a map cursor behaves as one map cursor with the
    composed function: after the same moves both dereference to [g (f x)]
    for the source's element [x] there, and two such nested cursors compare
    and measure distance as their innermost source cursors do. *)
Theorem map_of_map_composes (c d : Iterator) (f : A -> B) (g : B -> C)
  (mvs : list move) :
  let nested (p : Iterator) : MapIterator (MapIterator Iterator A B) B C :=
    Build_MapIterator (Build_MapIterator p f) g in
  let fused : MapIterator Iterator A C :=
    Build_MapIterator c (fun x => g (f x)) in
  op_deref (fold_left move_map mvs (nested c))
    = op_deref (fold_left move_map mvs fused) /\
  op_deref (fold_left move_map mvs (nested c))
    = g (f (src_deref (fold_left move_source mvs c))) /\
  op_neq (nested c) (nested d) = src_neq c d /\
  op_lt (nested c) (nested d) = src_lt c d /\
  op_distance (nested c) (nested d) = src_minus c d.
Proof.
  cbv zeta. rewrite !fold_move_map. unfold op_deref. simpl.
  rewrite fold_move_source_map, fold_move_map. simpl.
  repeat split.
Qed.

End MapOfMap.

(** ** More on the views of [Take.hpp] *)

(** X8. The constructors of [Take.hpp] meet: [slice(s, 0, n)] is the view
    [take(s, n)], and [takewhile] with a predicate that always holds is the
    view of the whole iterable, that of [take] with its length and of
    [takerange] on its two bounds. *)
Theorem take_slice_takewhile_meet {T} (s : Iterable) (n : nat) :
  slice T s 0 n = take T s n /\
  takewhile s (fun _ : T => true) = take T s (size s) /\
  takewhile s (fun _ : T => true) = takerange T (std_begin s) (std_end s).
Proof.
  unfold slice, take, std_next. rewrite Nat.add_0_r. repeat split.
Qed.

(** X9. For [a <= b], [slice(s, a, b)] is the view [take] builds of the
    first [b - a] elements of [s] without its first [a] elements. *)
Theorem slice_is_take_of_suffix {T} (s : Iterable) (a b : nat) :
  a <= b -> slice T s a b = take T (suffix s a) (b - a).
Proof.
  intros Hab. unfold slice, take, std_next, std_begin, suffix. simpl.
  now replace (base s + a + (b - a)) with (base s + b) by lia.
Qed.


(** X11. The two branches of [takewhile] build the same view: under
    [_MSC_VER], going through the address of the last element, and
    elsewhere, for every iterable, empty ones included. *)
Theorem takewhile_msvc_agrees {T} (s : Iterable) (p : T -> bool) :
  takewhile_msvc s p = takewhile s p.
Proof.
  unfold takewhile_msvc, takewhile. cbv zeta. simpl deref.
  destruct (std_begin s =? std_end s) eqn:E; [reflexivity |].
  apply Nat.eqb_neq in E. unfold std_begin, std_end in *.
  now replace (Nat.pred (base s + size s) + 1) with (base s + size s) by lia.
Qed.

(** ** More on [Concatenate.hpp] *)

Lemma IsAllSame_forallb_aux (More : list string) :
  forall Same First,
  IsAllSame Same First More = forallb (is_same Same) (First :: More).
Proof.
  induction More as [|Next More IH]; intros Same First; simpl IsAllSame.
  - simpl. now rewrite andb_true_r.
  - rewrite IH. simpl. unfold is_same.
    destruct (String.eqb_spec Same First) as [-> | Hne]; reflexivity.
Qed.

(** X12. [IsAllSame<Same, First, More...>::value], which compares each type
    with its neighbour only, is true exactly when every type of the pack is
    [Same]. *)
Theorem IsAllSame_compares_all (Same First : string) (More : list string) :
  IsAllSame Same First More = forallb (is_same Same) (First :: More) /\
  (IsAllSame Same First More = true <->
   forall X, In X (First :: More) -> X = Same).
Proof.
  split; [apply IsAllSame_forallb_aux |].
  rewrite IsAllSame_forallb_aux, forallb_forall. unfold is_same.
  split; intros Hall X HX.
  - symmetry. apply String.eqb_eq. now apply Hall.
  - apply String.eqb_eq. symmetry. now apply Hall.
Qed.

(** X13. [concat] builds a view exactly for two iterables or more whose
    iterators agree on value, pointer and reference type; the view then
    holds their begins and their ends, in order, and [begin()] stands at
    the begins and [end()] at the ends. *)
Theorem concat_accepts_exactly (ss : list Iterable) (view : Concatenate) :
  lz_Concatenate.concat ss = inr view <->
  2 <= List.length ss /\ same_types (map iter_traits ss) /\
  lz_Concatenate._begin view = map std_begin ss /\
  lz_Concatenate._end view = map std_end ss /\
  Iterators view = map iter_traits ss /\
  detail_ConcatenateIterator._iterators (Concatenate_begin view)
    = map std_begin ss /\
  detail_ConcatenateIterator._iterators (Concatenate_end view)
    = map std_end ss.
Proof.
  unfold lz_Concatenate.concat. rewrite concatrange_accepts, length_map.
  split.
  - intros [Hlen [Hty ->]]. simpl. auto 10.
  - intros [Hlen [Hty [Hb [He [Hi _]]]]]. destruct view as [pack b e].
    simpl in *. subst. auto.
Qed.

(** ** The laws at pointers into the array of the tests *)

Lemma map_increment_decrement_round_trip_witness :
  let H := pointer_source int_array in
  let it := detail_MapIterator.Build_MapIterator 2%Z (fun x => 2 * x)%Z in
  snd (detail_MapIterator.op_predec (snd (detail_MapIterator.op_preinc it)))
    = it /\
  snd (detail_MapIterator.op_preinc (snd (detail_MapIterator.op_predec it)))
    = it /\
  snd (detail_MapIterator.op_postdec (snd (detail_MapIterator.op_postinc it)))
    = it /\
  snd (detail_MapIterator.op_postinc (snd (detail_MapIterator.op_postdec it)))
    = it.
Proof.
  cbv zeta.
  apply (@map_increment_decrement_round_trip Z Z Z (pointer_source int_array));
    intros c; simpl; lia.
Defined.

Lemma map_offset_round_trip_witness :
  let H := pointer_source int_array in
  let it := detail_MapIterator.Build_MapIterator 2%Z (fun x => 2 * x)%Z in
  detail_MapIterator.op_minus (detail_MapIterator.op_plus it 3) 3 = it /\
  detail_MapIterator.op_distance (detail_MapIterator.op_plus it 3) it = 3%Z /\
  snd (detail_MapIterator.op_minus_assign 3
         (snd (detail_MapIterator.op_plus_assign 3 it))) = it.
Proof.
  cbv zeta.
  apply (@map_offset_round_trip Z Z Z (pointer_source int_array));
    intros c j; simpl; lia.
Defined.

Lemma map_equality_compares_positions_witness :
  let H := pointer_source int_array in
  let a := detail_MapIterator.Build_MapIterator 2%Z (fun x => 2 * x)%Z in
  let b := detail_MapIterator.Build_MapIterator 2%Z (fun x => x + 1)%Z in
  (detail_MapIterator.op_eq a b = true <->
   detail_MapIterator._iterator a = detail_MapIterator._iterator b) /\
  (forall g, detail_MapIterator.op_eq a
               (detail_MapIterator.Build_MapIterator
                  (detail_MapIterator._iterator a) g) = true).
Proof.
  cbv zeta.
  apply (@map_equality_compares_positions Z Z Z (pointer_source int_array)).
  intros c d. simpl. rewrite negb_false_iff. apply Z.eqb_eq.
Defined.

Lemma map_equality_from_ordering_witness :
  let H := pointer_source int_array in
  let a := detail_MapIterator.Build_MapIterator 2%Z (fun x => 2 * x)%Z in
  let b := detail_MapIterator.Build_MapIterator 5%Z (fun x => 2 * x)%Z in
  detail_MapIterator.op_eq a b
  = detail_MapIterator.op_le a b && detail_MapIterator.op_ge a b.
Proof.
  cbv zeta.
  apply (@map_equality_from_ordering Z Z Z (pointer_source int_array)).
  intros c d. simpl.
  destruct (Z.eqb_spec c d), (Z.ltb_spec c d), (Z.ltb_spec d c);
    simpl; try reflexivity; lia.
Defined.

Lemma slice_is_take_of_suffix_witness :
  slice Z array 2 4 = take Z (suffix array 2) (4 - 2).
Proof.
  apply (slice_is_take_of_suffix array 2 4). lia.
Defined.

